(** * ecom_agent: the guarded data tools and their audit hooks

    A shallow embedding of [src/ecom_agent/agent.py]: the keyword guardrail of
    [execute_sql], the three BigQuery tools, and the two logging callbacks.

    Python [str] values are sequences of Unicode code points; the store
    client, the standard output and the reviewing sub-agent are external and
    appear as the fields of an environment record. *)

From Stdlib Require Import List NArith ZArith Bool Ascii String Lia.
Import ListNotations.

(** ** Python strings *)

(** A [str] is a list of code points. *)
Definition char := N.
Definition str := list char.

(** A source literal, read as its code points. *)
Definition lit (s : string) : str := map N_of_ascii (list_ascii_of_string s).

Definition str_eqb (a b : str) : bool :=
  if list_eq_dec N.eq_dec a b then true else false.

(** [Py_UNICODE_ISSPACE]: the characters [str.split()] and [str.strip()]
    treat as whitespace. *)
Definition is_space (c : char) : bool :=
  ((9 <=? c) && (c <=? 13) || (28 <=? c) && (c <=? 32)
   || (c =? 133) || (c =? 160) || (c =? 5760)
   || (8192 <=? c) && (c <=? 8202)
   || (c =? 8232) || (c =? 8233) || (c =? 8239) || (c =? 8287)
   || (c =? 12288))%N.

Definition ascii_upper (c : char) : char :=
  if ((97 <=? c) && (c <=? 122))%N then (c - 32)%N else c.

Section Guardrail.

(** The upper-case mapping of the code points above 127, as the Unicode
    tables of the interpreter give it (one code point may map to
    several). *)
Variable unicode_upper : char -> str.

Definition upper_char (c : char) : str :=
  if (c <? 128)%N then [ascii_upper c] else unicode_upper c.

(** [s.upper()] *)
Definition upper (s : str) : str := flat_map upper_char s.

(** [s.lstrip()] *)
Fixpoint lstrip (s : str) : str :=
  match s with
  | [] => []
  | c :: s' => if is_space c then lstrip s' else s
  end.

(** [s.strip()] *)
Definition strip (s : str) : str := rev (lstrip (rev (lstrip s))).

Definition cons_word (w : str) (ws : list str) : list str :=
  match w with
  | [] => ws
  | _ :: _ => w :: ws
  end.

(** The word that starts at the head of [s] (empty when [s] starts with
    whitespace), and the words after it. *)
Fixpoint words (s : str) : str * list str :=
  match s with
  | [] => ([], [])
  | c :: s' =>
      let (w, ws) := words s' in
      if is_space c then ([], cons_word w ws) else (c :: w, ws)
  end.

(** [s.split()]: the maximal runs of non-whitespace characters, in
    order. *)
Definition split (s : str) : list str :=
  let (w, ws) := words s in cons_word w ws.

(** [BLOCKED_KEYWORDS] *)
Definition BLOCKED_KEYWORDS : list str :=
  [ lit "DELETE"; lit "DROP"; lit "TRUNCATE"; lit "UPDATE"; lit "INSERT";
    lit "ALTER"; lit "CREATE"; lit "MERGE"; lit "GRANT"; lit "REVOKE" ].

(** [keyword in tokens] *)
Definition contains (tokens : list str) (keyword : str) : bool :=
  existsb (str_eqb keyword) tokens.

(** The loop at the head of [execute_sql]: the first keyword of
    [BLOCKED_KEYWORDS] found among [sql_upper.split()], if any. *)
Definition guardrail (query : str) : option str :=
  let sql_upper := strip (upper query) in
  find (fun keyword => contains (split sql_upper) keyword) BLOCKED_KEYWORDS.

(** [f"Query blocked: contains '{keyword}' operation. This agent is
    read-only and cannot modify data."] *)
Definition blocked_message (keyword : str) : str :=
  lit "Query blocked: contains '" ++ keyword
    ++ lit "' operation. This agent is read-only and cannot modify data.".

End Guardrail.

(** ** Values, exceptions and the environment *)

(** The Python values the tools build.  [Obj] stands for the objects that
    come from outside as they are: the [dict] made of a result row, the
    answer of the reviewing sub-agent. *)
#[warnings="-register-all"]
Inductive value (Obj : Type) : Type :=
| VNone
| VInt (n : Z)
| VStr (s : str)
| VList (l : list (value Obj))
| VDict (d : list (string * value Obj))
| VObj (o : Obj).

Arguments VNone {Obj}.
Arguments VInt {Obj} n.
Arguments VStr {Obj} s.
Arguments VList {Obj} l.
Arguments VDict {Obj} d.
Arguments VObj {Obj} o.

(** A [dict] with literal keys, in insertion order. *)
Definition dict (Obj : Type) := list (string * value Obj).

Fixpoint dict_get {Obj} (key : string) (d : dict Obj) : option (value Obj) :=
  match d with
  | [] => None
  | (k, v) :: d' => if String.eqb k key then Some v else dict_get key d'
  end.

Definition keys {Obj} (d : dict Obj) : list string := map fst d.

(** The status tag of an envelope is one of the three, and is there once. *)
Definition tagged {Obj} (d : dict Obj) : Prop :=
  exists tag,
    dict_get "status" d = Some (VStr tag) /\
    In tag [lit "success"; lit "blocked"; lit "error"] /\
    count_occ string_dec (keys d) "status"%string = 1.

(** An instance of [Exception], the class the [except Exception] clauses of
    the tools catch; [message] is what [str(e)] gives.  Signals of the
    interpreter outside that class ([KeyboardInterrupt], [SystemExit]) are
    not outcomes of the store client and are left out. *)
Inductive exn := Exception (message : str).

Definition str_of_exn (e : exn) : str := let (m) := e in m.

Inductive outcome (A : Type) : Type :=
| Returned (a : A)
| Raised (e : exn).

Arguments Returned {A} a.
Arguments Raised {A} e.

(** [google.cloud.bigquery.SchemaField], [Table] and [TableListItem], as far
    as the tools read them. *)
Record SchemaField := { name : str; field_type : str; mode : str }.
Record Table := { schema : list SchemaField; num_rows : option Z }.
Record TableListItem := { table_id : str }.

(** What the module runs against.  Every operation of the outside world
    takes the external state and gives an outcome and the next state. *)
Record Env := {
  St : Type;
  Job : Type;
  RowIterator : Type;
  Row : Type;
  Obj : Type;
  unicode_upper : char -> str;
  (** [str(x)] of a value *)
  py_str : value Obj -> str;
  (** [dict(row)] *)
  row_dict : Row -> Obj;
  (** [bq_client.query(query)] *)
  bq_query : str -> St -> outcome Job * St;
  (** [query_job.result()] *)
  job_result : Job -> St -> outcome RowIterator * St;
  (** iterating the row iterator to its end *)
  rows_of : RowIterator -> St -> outcome (list Row) * St;
  (** [bq_client.get_table(table_ref)] *)
  bq_get_table : str -> St -> outcome Table * St;
  (** [bq_client.list_tables(dataset)], iterated to its end *)
  bq_list_tables : str -> St -> outcome (list TableListItem) * St;
  (** writing one line to the standard output *)
  stdout_write : str -> St -> outcome unit * St;
  (** running the [sql_validator] agent on its arguments *)
  run_agent : dict Obj -> St -> outcome (value Obj) * St
}.

(** What a run leaves behind, besides the external state. *)
Inductive event :=
| StoreQuery (query : str)
| StoreResult
| StoreRows
| StoreGetTable (table_ref : str)
| StoreListTables (dataset : str)
| AgentRun
| Printed (line : str).

Definition is_store_call (ev : event) : bool :=
  match ev with
  | StoreQuery _ | StoreResult | StoreRows
  | StoreGetTable _ | StoreListTables _ => true
  | AgentRun | Printed _ => false
  end.

Definition is_printed (ev : event) : bool :=
  match ev with Printed _ => true | _ => false end.

Record world (E : Env) := { ext : St E; trace : list event }.

Arguments ext {E} w.
Arguments trace {E} w.

(** ** Computations that may raise *)

Definition M (E : Env) (A : Type) : Type := world E -> outcome A * world E.

Definition ret {E A} (a : A) : M E A := fun w => (Returned a, w).

Definition bind {E A B} (m : M E A) (k : A -> M E B) : M E B :=
  fun w =>
    match m w with
    | (Returned a, w') => k a w'
    | (Raised e, w') => (Raised e, w')
    end.

(** [try: body except Exception as e: handler] *)
Definition try_except {E A} (body : M E A) (handler : exn -> M E A) : M E A :=
  fun w =>
    match body w with
    | (Returned a, w') => (Returned a, w')
    | (Raised e, w') => handler e w'
    end.

(** A call to the outside world, entered in the trace when it is made. *)
Definition call {E A} (ev : event) (op : St E -> outcome A * St E) : M E A :=
  fun w =>
    let (r, s) := op (ext w) in
    (r, {| ext := s; trace := trace w ++ [ev] |}).

(** The line end [print] writes after its text. *)
Definition newline : str := [10%N].

(** [print(line)]: two writes to the standard output, the text and then the
    line end, either of which may raise.  [Printed line] enters the trace
    when the write of the text has returned. *)
Definition print {E} (line : str) : M E unit :=
  fun w =>
    match stdout_write E line (ext w) with
    | (Raised e, s) => (Raised e, {| ext := s; trace := trace w |})
    | (Returned _, s) =>
        match stdout_write E newline s with
        | (Returned _, s') =>
            (Returned tt, {| ext := s'; trace := trace w ++ [Printed line] |})
        | (Raised e, s') =>
            (Raised e, {| ext := s'; trace := trace w ++ [Printed line] |})
        end
    end.

Declare Scope py_scope.
Delimit Scope py_scope with py.
Notation "x <- m ;; k" := (bind m (fun x => k))
  (at level 100, m at next level, right associativity) : py_scope.
Notation "m ;;; k" := (bind m (fun _ => k))
  (at level 100, right associativity) : py_scope.
Open Scope py_scope.

(** ** The tools *)

Definition PROJECT_ID : str := lit "playground-s-11-6d7b503d".
Definition DATASET_ID : str := lit "ecom_analytics".

Section Tools.

Variable E : Env.

Definition blocked (keyword : str) : dict (Obj E) :=
  [ ("status", VStr (lit "blocked"));
    ("message", VStr (blocked_message keyword)) ]%string.

Definition error (e : exn) : dict (Obj E) :=
  [ ("status", VStr (lit "error"));
    ("message", VStr (str_of_exn e)) ]%string.

(** [execute_sql(query)] *)
Definition execute_sql (query : str) : M E (dict (Obj E)) :=
  match guardrail (unicode_upper E) query with
  | Some keyword => ret (blocked keyword)
  | None =>
      try_except
        (query_job <- call (StoreQuery query) (bq_query E query) ;;
         results <- call StoreResult (job_result E query_job) ;;
         yielded <- call StoreRows (rows_of E results) ;;
         let rows := map (fun row => VObj (row_dict E row)) yielded in
         ret [ ("status", VStr (lit "success"));
               ("row_count", VInt (Z.of_nat (List.length rows)));
               ("results", VList (firstn 50 rows)) ]%string)
        (fun e => ret (error e))
  end.

(** [f"{PROJECT_ID}.{DATASET_ID}.{table_name}"] *)
Definition table_ref_of (table_name : str) : str :=
  PROJECT_ID ++ lit "." ++ DATASET_ID ++ lit "." ++ table_name.

Definition column (field : SchemaField) : value (Obj E) :=
  VDict [ ("name", VStr (name field));
          ("type", VStr (field_type field));
          ("mode", VStr (mode field)) ]%string.

Definition int_or_none (n : option Z) : value (Obj E) :=
  match n with
  | Some z => VInt z
  | None => VNone
  end.

(** [get_schema(table_name)] *)
Definition get_schema (table_name : str) : M E (dict (Obj E)) :=
  try_except
    (let table_ref := table_ref_of table_name in
     table <- call (StoreGetTable table_ref) (bq_get_table E table_ref) ;;
     let columns := map column (schema table) in
     ret [ ("status", VStr (lit "success"));
           ("table", VStr table_ref);
           ("total_rows", int_or_none (num_rows table));
           ("columns", VList columns) ]%string)
    (fun e => ret (error e)).

(** [f"{PROJECT_ID}.{DATASET_ID}"] *)
Definition dataset_ref : str := PROJECT_ID ++ lit "." ++ DATASET_ID.

(** [list_tables()] *)
Definition list_tables : M E (dict (Obj E)) :=
  try_except
    (tables <- call (StoreListTables dataset_ref)
                 (bq_list_tables E dataset_ref) ;;
     let table_list := map (fun t => VStr (table_id t)) tables in
     ret [ ("status", VStr (lit "success"));
           ("dataset", VStr dataset_ref);
           ("tables", VList table_list) ]%string)
    (fun e => ret (error e)).

(** ** The callbacks *)

(** A registered tool: its name and what running it on the arguments
    does. *)
Record tool := { tool_name : str; run : dict (Obj E) -> M E (value (Obj E)) }.

Definition before_line (t : tool) (args : dict (Obj E)) : str :=
  lit "BEFORE TOOL | " ++ tool_name t ++ lit " | Args: "
    ++ firstn 200 (py_str E (VDict args)).

(** [before_tool_callback(tool, args, tool_context)] *)
Definition before_tool_callback (t : tool) (args : dict (Obj E))
  : M E (option (value (Obj E))) :=
  print (before_line t args) ;;;
  ret None.

Definition after_line (t : tool) (tool_response : value (Obj E)) : str :=
  let response_preview := firstn 300 (py_str E tool_response) in
  lit "AUDIT LOG | Tool: " ++ tool_name t ++ lit " | Response: "
    ++ response_preview.

(** [after_tool_callback(tool, args, tool_context, tool_response)] *)
Definition after_tool_callback (t : tool) (args : dict (Obj E))
    (tool_response : value (Obj E)) : M E (option (value (Obj E))) :=
  print (after_line t tool_response) ;;;
  ret None.

End Tools.

Arguments tool_name {E} t.
Arguments run {E} t args.
Arguments before_line {E} t args.
Arguments after_line {E} t tool_response.
Arguments before_tool_callback {E} t args.
Arguments after_tool_callback {E} t args tool_response.

(** ** The registry and the dispatch *)

Section Orchestrator.

Variable E : Env.

(** What becomes of a request whose mapping does not fit the signature of
    the named function (a parameter missing or in excess, a value that is
    not a [str]).  The framework hands the mapping on and the function does
    what it does with it; neither is fixed here, so it is left open. *)
Variable misfit : str -> dict (Obj E) -> M E (value (Obj E)).

(** Modelled from the spec: the call of a registered function on an
    Invocation Request (the framework's function-tool adapter is not part of
    the source).  The request is the ordered mapping of parameter names to
    values; when it gives the function's one parameter, a [str] as
    annotated, the function is called on it and its result is the tool's
    response. *)
Definition call_with_str (tool_name' : str) (param : string)
    (f : str -> M E (dict (Obj E))) (args : dict (Obj E))
  : M E (value (Obj E)) :=
  match args with
  | [(k, VStr s)] =>
      if String.eqb k param then (d <- f s ;; ret (VDict d))
      else misfit tool_name' args
  | _ => misfit tool_name' args
  end.

(** Modelled from the spec: the same adapter for a function without
    parameters. *)
Definition call_no_args (tool_name' : str) (f : M E (dict (Obj E)))
    (args : dict (Obj E)) : M E (value (Obj E)) :=
  match args with
  | [] => (d <- f ;; ret (VDict d))
  | _ :: _ => misfit tool_name' args
  end.

(** [sql_validator_tool = AgentTool(agent=sql_validator_agent)]: the body of
    this tool is a run of the sub-agent. *)
Definition sql_validator_tool : tool E :=
  {| tool_name := lit "sql_validator";
     run := fun args => call AgentRun (run_agent E args) |}.

(** [tools=[execute_sql, get_schema, list_tables, sql_validator_tool]] *)
Definition registry : list (tool E) :=
  [ {| tool_name := lit "execute_sql";
       run := call_with_str (lit "execute_sql") "query" (execute_sql E) |};
    {| tool_name := lit "get_schema";
       run := call_with_str (lit "get_schema") "table_name" (get_schema E) |};
    {| tool_name := lit "list_tables";
       run := call_no_args (lit "list_tables") (list_tables E) |};
    sql_validator_tool ].

Definition unknown_tool : value (Obj E) :=
  VDict [ ("status", VStr (lit "error"));
          ("message", VStr (lit "unknown tool")) ]%string.

(** Modelled from the spec: the Orchestrator's [dispatch(name, args)], which
    the agent framework provides and the source only configures
    ([root_agent]).  An unknown name gives an error without any hook; a
    known one runs the pre-hook, the tool's body on [args], the post-hook on
    the response, and gives the response back.  The hooks are the two
    callbacks of the source; following the framework's convention for
    callbacks, a hook that returns [None] leaves the call as it is, and a
    value returned by a hook would stand for the response. *)
Definition dispatch (tool_name' : str) (args : dict (Obj E))
  : M E (value (Obj E)) :=
  match find (fun t => str_eqb (tool_name t) tool_name') registry with
  | None => ret unknown_tool
  | Some t =>
      override <- before_tool_callback t args ;;
      response <- match override with
                  | Some r => ret r
                  | None => run t args
                  end ;;
      replaced <- after_tool_callback t args response ;;
      ret (match replaced with
           | Some r => r
           | None => response
           end)
  end.

(** The arguments fit the parameters of the named tool. *)
Definition one_str (param : string) (args : dict (Obj E)) : bool :=
  match args with
  | [(k, VStr _)] => String.eqb k param
  | _ => false
  end.

Definition well_typed (tool_name' : str) (args : dict (Obj E)) : bool :=
  if str_eqb tool_name' (lit "execute_sql") then one_str "query" args
  else if str_eqb tool_name' (lit "get_schema") then one_str "table_name" args
  else if str_eqb tool_name' (lit "list_tables") then
         match args with [] => true | _ :: _ => false end
  else true.

(** The standard output takes every line. *)
Definition sink_accepts : Prop :=
  forall line s, exists s', stdout_write E line s = (Returned tt, s').

(** A run of the sub-agent ends with an answer. *)
Definition agent_answers : Prop :=
  forall args s, exists v s', run_agent E args s = (Returned v, s').

(** The body of a tool ends with a response and prints nothing. *)
Definition quiet_body (t : tool E) (args : dict (Obj E)) : Prop :=
  forall w1, exists response w2 evs,
    run t args w1 = (Returned response, w2) /\
    trace w2 = trace w1 ++ evs /\
    filter is_printed evs = [] /\
    (tool_name t = lit "sql_validator" \/
     exists env, response = VDict env /\ tagged env).

End Orchestrator.

Arguments quiet_body {E} t args.

Definition known_tools : list str :=
  [ lit "list_tables"; lit "get_schema"; lit "execute_sql";
    lit "sql_validator" ].

(** ** A small store to run the tools on *)

Definition no_upper : char -> str := fun c => [c].

Definition products : Table :=
  {| schema :=
       [ {| name := lit "product_id"; field_type := lit "INT64";
            mode := lit "REQUIRED" |};
         {| name := lit "is_active"; field_type := lit "BOOL";
            mode := lit "NULLABLE" |} ];
     num_rows := Some 50%Z |}.

(** A store whose every query matches [n] rows, numbered from 0, with the
    one table [products]; the standard output works when [sink_ok]. *)
Definition shop (n : nat) (sink_ok : bool) : Env :=
  {| St := unit;
     Job := str;
     RowIterator := str;
     Row := nat;
     Obj := nat;
     unicode_upper := no_upper;
     py_str := fun _ => lit "{...}";
     row_dict := fun r => r;
     bq_query := fun q s => (Returned q, s);
     job_result := fun j s => (Returned j, s);
     rows_of := fun _ s => (Returned (seq 0 n), s);
     bq_get_table := fun r s =>
       if str_eqb r (table_ref_of (lit "products"))
       then (Returned products, s)
       else (Raised (Exception (lit "404 Not found")), s);
     bq_list_tables := fun _ s =>
       (Returned [ {| table_id := lit "products" |} ], s);
     stdout_write := fun _ s =>
       if sink_ok then (Returned tt, s)
       else (Raised (Exception (lit "Broken pipe")), s);
     run_agent := fun _ s => (Returned (VStr (lit "VERDICT: SAFE")), s) |}.

Definition start (n : nat) (sink_ok : bool) : world (shop n sink_ok) :=
  Build_world (shop n sink_ok) tt [].

(** ** What a token is *)

Definition nonspace (c : char) : bool := negb (is_space c).

Definition starts_with_space (s : str) : Prop :=
  match s with
  | [] => True
  | c :: _ => is_space c = true
  end.

Definition ends_with_space (s : str) : Prop :=
  s = [] \/ exists p c, s = p ++ [c] /\ is_space c = true.

(** [t] is a whitespace-delimited token of [s]: a non-empty run without
    whitespace, with the start of [s] or a whitespace character before it and
    the end of [s] or a whitespace character after it. *)
Definition token (t s : str) : Prop :=
  t <> [] /\ forallb nonspace t = true /\
  exists pre post,
    s = pre ++ t ++ post /\ ends_with_space pre /\ starts_with_space post.

(** [k] occurs somewhere inside [t]. *)
Definition substring (k t : str) : Prop := exists a b, t = a ++ k ++ b.

(** Every character of [s] is an ASCII character. *)
Definition is_ascii (s : str) : bool := forallb (fun c => (c <? 128)%N) s.

(** Every character of [s] is an ASCII whitespace character. *)
Definition is_blank (s : str) : bool :=
  forallb (fun c => is_space c && (c <? 128)%N) s.

(** A store that fails at one step of a query: [bq_client.query] when
    [fail_at] is 0, [result()] when it is 1, the iteration over the rows when
    it is 2; with any other number the query gives two rows.  The external
    state counts the calls made to the client. *)
Definition flaky (fail_at : nat) : Env :=
  {| St := nat;
     Job := str;
     RowIterator := str;
     Row := nat;
     Obj := nat;
     unicode_upper := no_upper;
     py_str := fun _ => lit "{...}";
     row_dict := fun r => r;
     bq_query := fun q s =>
       if Nat.eqb fail_at 0
       then (Raised (Exception (lit "400 Syntax error")), S s)
       else (Returned q, S s);
     job_result := fun j s =>
       if Nat.eqb fail_at 1
       then (Raised (Exception (lit "403 Access Denied")), S s)
       else (Returned j, S s);
     rows_of := fun _ s =>
       if Nat.eqb fail_at 2
       then (Raised (Exception (lit "Connection reset")), S s)
       else (Returned [7; 8], S s);
     bq_get_table := fun _ s =>
       (Raised (Exception (lit "404 Not found")), S s);
     bq_list_tables := fun _ s =>
       if Nat.eqb fail_at 0
       then (Raised (Exception (lit "403 Access Denied")), S s)
       else (Returned [ {| table_id := lit "products" |};
                        {| table_id := lit "customers" |};
                        {| table_id := lit "orders" |} ], S s);
     stdout_write := fun _ s => (Returned tt, s);
     run_agent := fun _ s => (Returned VNone, s) |}.

Definition flaky_start (fail_at : nat) : world (flaky fail_at) :=
  Build_world (flaky fail_at) 0 [].

(** A stand-in for what is left open in the dispatch: such a call raises. *)
Definition refused (E : Env) : str -> dict (Obj E) -> M E (value (Obj E)) :=
  fun _ _ w => (Raised (Exception (lit "TypeError")), w).

(** A store like [shop 3 true] whose standard output takes a number of
    writes and then breaks; the external state is the number of writes still
    taken. *)
Definition pipe : Env :=
  {| St := nat;
     Job := str;
     RowIterator := str;
     Row := nat;
     Obj := nat;
     unicode_upper := no_upper;
     py_str := fun _ => lit "{...}";
     row_dict := fun r => r;
     bq_query := fun q s => (Returned q, s);
     job_result := fun j s => (Returned j, s);
     rows_of := fun _ s => (Returned (seq 0 3), s);
     bq_get_table := fun _ s => (Returned products, s);
     bq_list_tables := fun _ s =>
       (Returned [ {| table_id := lit "products" |} ], s);
     stdout_write := fun _ s =>
       match s with
       | O => (Raised (Exception (lit "Broken pipe")), O)
       | S k => (Returned tt, k)
       end;
     run_agent := fun _ s => (Returned (VStr (lit "VERDICT: SAFE")), s) |}.

(** * Properties *)

(** ** Strings *)

Lemma str_eqb_eq (a b : str) : str_eqb a b = true <-> a = b.
Proof.
  unfold str_eqb. destruct (list_eq_dec N.eq_dec a b); split; congruence.
Qed.

Lemma contains_In (tokens : list str) (k : str) :
  contains tokens k = true <-> In k tokens.
Proof.
  unfold contains. rewrite existsb_exists. split.
  - intros (x & Hx & He). apply str_eqb_eq in He. now subst.
  - intros H. exists k. split; [assumption | now apply str_eqb_eq].
Qed.

Lemma cons_word_app (w : str) (ws l : list str) :
  cons_word w (ws ++ l) = cons_word w ws ++ l.
Proof. destruct w; reflexivity. Qed.

Lemma in_cons_word (t w : str) (ws : list str) :
  In t (cons_word w ws) <-> (t = w /\ w <> []) \/ In t ws.
Proof.
  destruct w as [|c w]; simpl.
  - split; [now right | intros [[_ H] | H]; [now elim H | assumption]].
  - split.
    + intros [H | H]; [left; split; [now symmetry | discriminate] | now right].
    + intros [[H _] | H]; [now left | now right].
Qed.

(** The first component of [words] is the longest prefix without
    whitespace. *)
Lemma words_fst (s : str) :
  forallb nonspace (fst (words s)) = true /\
  exists post, s = fst (words s) ++ post /\ starts_with_space post.
Proof.
  induction s as [|c s [IHn (post & IHe & IHs)]]; simpl.
  - split; [reflexivity | exists []; split; [reflexivity | exact I]].
  - destruct (words s) as [w ws]; simpl in *.
    destruct (is_space c) eqn:Hc; simpl.
    + split; [reflexivity |].
      exists (c :: s). split; [reflexivity | exact Hc].
    + split.
      * unfold nonspace at 1. now rewrite Hc.
      * exists post. split; [now rewrite IHe at 1 | assumption].
Qed.

(** The other words stand after a whitespace character. *)
Lemma words_snd (s t : str) :
  In t (snd (words s)) ->
  t <> [] /\ forallb nonspace t = true /\
  exists pre post,
    s = pre ++ t ++ post /\ pre <> [] /\ ends_with_space pre /\
    starts_with_space post.
Proof.
  revert t. induction s as [|c s IH]; simpl; intros t Ht.
  - contradiction.
  - pose proof (words_fst s) as [Hn (post & He & Hs)].
    destruct (words s) as [w ws]; simpl in *.
    destruct (is_space c) eqn:Hc; simpl in Ht.
    + apply in_cons_word in Ht. destruct Ht as [[-> Hw] | Ht].
      * split; [assumption | split; [assumption |]].
        exists [c], post. repeat split.
        -- simpl. now rewrite He at 1.
        -- discriminate.
        -- right. exists [], c. now split.
        -- assumption.
      * destruct (IH t Ht) as (H1 & H2 & pre & post' & H3 & H4 & H5 & H6).
        split; [assumption | split; [assumption |]].
        exists (c :: pre), post'. repeat split.
        -- simpl. now rewrite H3 at 1.
        -- discriminate.
        -- right. destruct H5 as [-> | (p & c' & -> & Hc')]; [now elim H4 |].
           exists (c :: p), c'. now split.
        -- assumption.
    + destruct (IH t Ht) as (H1 & H2 & pre & post' & H3 & H4 & H5 & H6).
      split; [assumption | split; [assumption |]].
      exists (c :: pre), post'. repeat split.
      * simpl. now rewrite H3 at 1.
      * discriminate.
      * right. destruct H5 as [-> | (p & c' & -> & Hc')]; [now elim H4 |].
        exists (c :: p), c'. now split.
      * assumption.
Qed.

Lemma split_sound (s t : str) : In t (split s) -> token t s.
Proof.
  unfold split. intros H.
  pose proof (words_fst s) as [Hn (post & He & Hs)].
  pose proof (words_snd s t) as Hsnd.
  destruct (words s) as [w ws]; simpl in *.
  apply in_cons_word in H. destruct H as [[-> Hw] | H].
  - split; [assumption | split; [assumption |]].
    exists [], post. repeat split; [assumption | now left | assumption].
  - destruct (Hsnd H) as (H1 & H2 & pre & post' & H3 & _ & H5 & H6).
    split; [assumption | split; [assumption |]].
    exists pre, post'. now repeat split.
Qed.

Lemma words_app_space (a b : str) (c : char) :
  is_space c = true ->
  words (a ++ c :: b) = (fst (words a), snd (words a) ++ split b).
Proof.
  intros Hc. induction a as [|x a IH]; simpl.
  - unfold split. destruct (words b) as [w ws]. now rewrite Hc.
  - rewrite IH. destruct (words a) as [w ws]; simpl.
    destruct (is_space x); [now rewrite cons_word_app | reflexivity].
Qed.

Lemma words_nonspace (t : str) :
  forallb nonspace t = true -> words t = (t, []).
Proof.
  induction t as [|c t IH]; simpl; [reflexivity |].
  intros H. apply andb_true_iff in H. destruct H as [Hc Ht].
  rewrite (IH Ht). unfold nonspace in Hc.
  now destruct (is_space c).
Qed.

Lemma split_word_first (t post : str) :
  t <> [] -> forallb nonspace t = true -> starts_with_space post ->
  In t (split (t ++ post)).
Proof.
  intros Ht Hn Hp. destruct post as [|c p].
  - rewrite app_nil_r. unfold split. rewrite (words_nonspace t Hn).
    apply in_cons_word. now left.
  - simpl in Hp. unfold split. rewrite (words_app_space t p c Hp).
    rewrite (words_nonspace t Hn). simpl.
    apply in_cons_word. now left.
Qed.

Lemma split_complete (s t : str) : token t s -> In t (split s).
Proof.
  intros (Ht & Hn & pre & post & -> & Hpre & Hpost).
  destruct Hpre as [-> | (p & c & -> & Hc)].
  - simpl. now apply split_word_first.
  - rewrite <- app_assoc. simpl.
    unfold split at 1. rewrite (words_app_space p (t ++ post) c Hc).
    apply in_cons_word. right. apply in_or_app. right.
    now apply split_word_first.
Qed.

(** [s.split()] gives the whitespace-delimited tokens of [s]. *)
Lemma split_spec (s t : str) : In t (split s) <-> token t s.
Proof. split; [apply split_sound | apply split_complete]. Qed.

Lemma split_lstrip (s : str) : split (lstrip s) = split s.
Proof.
  induction s as [|c s IH]; simpl; [reflexivity |].
  destruct (is_space c) eqn:Hc; [| reflexivity].
  rewrite IH. unfold split. simpl. rewrite Hc.
  now destruct (words s) as [w ws].
Qed.

Lemma split_trailing (s : str) (c : char) :
  is_space c = true -> split (s ++ [c]) = split s.
Proof.
  intros Hc. unfold split at 1. rewrite (words_app_space s [] c Hc).
  unfold split. simpl. rewrite app_nil_r. now destruct (words s).
Qed.

Lemma split_rstrip (s : str) : split (rev (lstrip (rev s))) = split s.
Proof.
  induction s as [|c s IH] using rev_ind; [reflexivity |].
  rewrite rev_app_distr. simpl.
  destruct (is_space c) eqn:Hc.
  - rewrite IH. symmetry. now apply split_trailing.
  - simpl. now rewrite rev_involutive.
Qed.

(** Stripping first does not change the tokens. *)
Lemma split_strip (s : str) : split (strip s) = split s.
Proof. unfold strip. now rewrite split_rstrip, split_lstrip. Qed.

(** ** The guardrail *)

Lemma find_first {A} (f : A -> bool) (l : list A) (x : A) :
  find f l = Some x <->
  exists l1 l2, l = l1 ++ x :: l2 /\ f x = true /\
                forall y, In y l1 -> f y = false.
Proof.
  induction l as [|a l IH]; simpl.
  - split; [discriminate |].
    intros (l1 & l2 & H & _). now destruct l1.
  - destruct (f a) eqn:Ha.
    + split.
      * intros [= <-]. exists [], l. repeat split; [assumption |].
        intros y [].
      * intros ([|y l1] & l2 & H & Hx & Hl); simpl in H.
        -- now injection H as -> _.
        -- injection H as <- _. rewrite (Hl a (or_introl eq_refl)) in Ha.
           discriminate.
    + rewrite IH. split.
      * intros (l1 & l2 & -> & Hx & Hl). exists (a :: l1), l2.
        repeat split; [assumption |].
        intros y [<- | Hy]; [assumption | now apply Hl].
      * intros ([|y l1] & l2 & H & Hx & Hl); simpl in H.
        -- injection H as -> _. congruence.
        -- injection H as _ ->. exists l1, l2.
           repeat split; [assumption |].
           intros z Hz. apply Hl. now right.
Qed.

Section GuardrailFacts.

Variable u : char -> str.

(** The test of the loop asks whether the keyword is a token of the
    upper-cased query. *)
Lemma contains_token (query k : str) :
  contains (split (strip (upper u query))) k = true <-> token k (upper u query).
Proof. now rewrite contains_In, split_strip, split_spec. Qed.

Lemma not_contains_token (query k : str) :
  contains (split (strip (upper u query))) k = false <->
  ~ token k (upper u query).
Proof.
  rewrite <- contains_token.
  destruct (contains (split (strip (upper u query))) k); split;
    congruence.
Qed.

(** The keyword reported is the first of the list that is a token. *)
Lemma guardrail_first (query kw : str) :
  guardrail u query = Some kw <->
  exists l1 l2,
    BLOCKED_KEYWORDS = l1 ++ kw :: l2 /\ token kw (upper u query) /\
    forall k, In k l1 -> ~ token k (upper u query).
Proof.
  unfold guardrail. rewrite find_first. split.
  - intros (l1 & l2 & H & Hk & Hl). exists l1, l2.
    split; [assumption |]. split; [now apply contains_token |].
    intros k Hin. apply not_contains_token. now apply Hl.
  - intros (l1 & l2 & H & Hk & Hl). exists l1, l2.
    split; [assumption |]. split; [now apply contains_token |].
    intros k Hin. apply not_contains_token. now apply Hl.
Qed.

Lemma guardrail_some (query kw : str) :
  guardrail u query = Some kw ->
  In kw BLOCKED_KEYWORDS /\ token kw (upper u query).
Proof.
  intros H. apply guardrail_first in H.
  destruct H as (l1 & l2 & -> & Hk & _). split; [| assumption].
  apply in_or_app. right. now left.
Qed.

Lemma guardrail_none (query : str) :
  guardrail u query = None <->
  forall kw, In kw BLOCKED_KEYWORDS -> ~ token kw (upper u query).
Proof.
  unfold guardrail. split.
  - intros H kw Hin. apply not_contains_token.
    exact (find_none _ _ H kw Hin).
  - intros H.
    destruct (find _ BLOCKED_KEYWORDS) as [kw|] eqn:Hf; [| reflexivity].
    apply find_some in Hf. destruct Hf as [Hin Hc].
    apply contains_token in Hc. now elim (H kw Hin).
Qed.

(** Queries with the same tokens get the same decision. *)
Lemma guardrail_tokens (q1 q2 : str) :
  (forall t, token t (upper u q1) <-> token t (upper u q2)) ->
  guardrail u q1 = guardrail u q2.
Proof.
  intros H. unfold guardrail.
  induction BLOCKED_KEYWORDS as [|k l IH]; simpl; [reflexivity |].
  assert (Hk : contains (split (strip (upper u q1))) k
               = contains (split (strip (upper u q2))) k).
  { destruct (contains (split (strip (upper u q2))) k) eqn:H2.
    - apply contains_token. apply H. now apply contains_token.
    - apply not_contains_token. rewrite H. now apply not_contains_token. }
  rewrite Hk, IH. reflexivity.
Qed.

(** Upper-casing a literal of the source does not look at the Unicode
    tables when the literal is ASCII. *)
Lemma upper_ascii (s : str) :
  forallb (fun c => (c <? 128)%N) s = true ->
  upper u s = map ascii_upper s.
Proof.
  induction s as [|c s IH]; simpl; [reflexivity |].
  intros H. apply andb_true_iff in H. destruct H as [Hc Hs].
  unfold upper_char. rewrite Hc. simpl. f_equal. now apply IH.
Qed.

End GuardrailFacts.

(** Upper-casing an ASCII character does not make or unmake whitespace. *)
Lemma is_space_bounds (c : char) :
  is_space c = true -> (c <= 32 \/ 133 <= c)%N.
Proof.
  unfold is_space.
  rewrite ?orb_true_iff, ?andb_true_iff, ?N.leb_le, ?N.eqb_eq. lia.
Qed.

Lemma is_space_ascii_upper (c : char) :
  is_space (ascii_upper c) = is_space c.
Proof.
  unfold ascii_upper.
  destruct ((97 <=? c) && (c <=? 122))%N eqn:Hc; [| reflexivity].
  apply andb_true_iff in Hc. destruct Hc as [H1 H2].
  apply N.leb_le in H1, H2.
  destruct (is_space (c - 32)%N) eqn:Ha, (is_space c) eqn:Hb;
    try reflexivity.
  - apply is_space_bounds in Ha. lia.
  - apply is_space_bounds in Hb. lia.
Qed.

(** In an ASCII query, a token that reads as a keyword once its letters are
    upper-cased is a token of the upper-cased query: the match is
    case-insensitive on the tokens of the query as written. *)
Lemma token_upper_ascii (u : char -> str) (t query : str) :
  forallb (fun c => (c <? 128)%N) query = true ->
  token t query ->
  token (map ascii_upper t) (upper u query).
Proof.
  intros Hq (Ht & Hn & pre & post & -> & Hpre & Hpost).
  rewrite (upper_ascii u _ Hq), !map_app.
  split; [now destruct t |]. split.
  - rewrite forallb_forall in *. intros x Hx.
    apply in_map_iff in Hx. destruct Hx as (c & <- & Hc).
    unfold nonspace. rewrite is_space_ascii_upper. now apply Hn.
  - exists (map ascii_upper pre), (map ascii_upper post).
    split; [reflexivity |]. split.
    + destruct Hpre as [-> | (p & c & -> & Hc)]; [now left |].
      right. exists (map ascii_upper p), (ascii_upper c).
      rewrite map_app, is_space_ascii_upper. now split.
    + destruct post as [|c post]; [exact I |]. simpl in *.
      now rewrite is_space_ascii_upper.
Qed.

(** ** Runs of the three tools *)

Ltac tag_ok :=
  eexists; split; [reflexivity |];
  split;
  [ first [ left; reflexivity
          | right; left; reflexivity
          | right; right; left; reflexivity ]
  | reflexivity ].

Ltac run_ok :=
  do 3 eexists; split; [reflexivity |];
  split; [simpl; rewrite <- ?app_assoc; reflexivity |];
  split; [reflexivity | tag_ok].

Section ToolFacts.

Variable E : Env.

Lemma error_tagged (e : exn) : tagged (error E e).
Proof. unfold error. tag_ok. Qed.

Lemma blocked_tagged (k : str) : tagged (blocked E k).
Proof. unfold blocked. tag_ok. Qed.

(** A blocked query comes back at once: the world is the one before. *)
Lemma execute_sql_blocked (query rule : str) (w : world E) :
  guardrail (unicode_upper E) query = Some rule ->
  execute_sql E query w = (Returned (blocked E rule), w).
Proof. intros H. unfold execute_sql. now rewrite H. Qed.

(** An allowed query is handed to the client first, whatever follows; the
    run ends with an envelope and leaves only store calls in the trace. *)
Lemma execute_sql_allowed (query : str) (w : world E) :
  guardrail (unicode_upper E) query = None ->
  exists env w' evs,
    execute_sql E query w = (Returned env, w') /\
    trace w' = trace w ++ StoreQuery query :: evs /\
    forallb is_store_call evs = true /\
    tagged env.
Proof.
  intros H. unfold execute_sql. rewrite H.
  unfold try_except, bind, call, ret, error.
  destruct (bq_query E query (ext w)) as [[job | e] s1]; simpl; [| run_ok].
  destruct (job_result E job s1) as [[it | e] s2]; simpl; [| run_ok].
  destruct (rows_of E it s2) as [[rows | e] s3]; simpl; run_ok.
Qed.

Lemma execute_sql_total (query : str) (w : world E) :
  exists env w' evs,
    execute_sql E query w = (Returned env, w') /\
    trace w' = trace w ++ evs /\
    forallb is_store_call evs = true /\
    tagged env.
Proof.
  destruct (guardrail (unicode_upper E) query) as [rule |] eqn:Hg.
  - exists (blocked E rule), w, [].
    split; [now apply execute_sql_blocked |].
    split; [now rewrite app_nil_r |].
    split; [reflexivity | apply blocked_tagged].
  - destruct (execute_sql_allowed query w Hg)
      as (env & w' & evs & H1 & H2 & H3 & H4).
    exists env, w', (StoreQuery query :: evs). now repeat split.
Qed.

Lemma get_schema_total (table_name : str) (w : world E) :
  exists env w' evs,
    get_schema E table_name w = (Returned env, w') /\
    trace w' = trace w ++ evs /\
    forallb is_store_call evs = true /\
    tagged env.
Proof.
  unfold get_schema, try_except, bind, call, ret, error.
  destruct (bq_get_table E (table_ref_of table_name) (ext w))
    as [[table | e] s]; simpl; run_ok.
Qed.

Lemma list_tables_total (w : world E) :
  exists env w' evs,
    list_tables E w = (Returned env, w') /\
    trace w' = trace w ++ evs /\
    forallb is_store_call evs = true /\
    tagged env.
Proof.
  unfold list_tables, try_except, bind, call, ret, error.
  destruct (bq_list_tables E dataset_ref (ext w))
    as [[tables | e] s]; simpl; run_ok.
Qed.

(** The only query a run hands to the client is its own argument, and only
    after the guardrail has let it through. *)
Lemma store_query_only_after_guardrail (query : str) (w : world E) :
  exists r w' evs,
    execute_sql E query w = (r, w') /\
    trace w' = trace w ++ evs /\
    forall q, In (StoreQuery q) evs ->
              q = query /\ guardrail (unicode_upper E) query = None.
Proof.
  destruct (guardrail (unicode_upper E) query) as [rule |] eqn:Hg.
  - exists (Returned (blocked E rule)), w, [].
    split; [now apply execute_sql_blocked |].
    split; [now rewrite app_nil_r | intros q []].
  - unfold execute_sql. rewrite Hg.
    unfold try_except, bind, call, ret, error.
    destruct (bq_query E query (ext w)) as [[job | e] s1]; simpl.
    + destruct (job_result E job s1) as [[it | e] s2]; simpl.
      * destruct (rows_of E it s2) as [[rows | e] s3]; simpl;
          do 3 eexists; (split; [reflexivity |]);
          (split; [simpl; rewrite <- ?app_assoc; reflexivity |]);
          intros q [[= <-] | [[=] | [[=] | []]]]; now split.
      * do 3 eexists. split; [reflexivity |].
        split; [simpl; rewrite <- ?app_assoc; reflexivity |].
        intros q [[= <-] | [[=] | []]]. now split.
    + do 3 eexists. split; [reflexivity |].
      split; [reflexivity |].
      intros q [[= <-] | []]. now split.
Qed.

End ToolFacts.

Lemma substring_proper (k t : str) :
  substring k t -> k <> t -> List.length k < List.length t.
Proof.
  intros (a & b & ->) Hne. rewrite !length_app.
  destruct a as [|x a]; simpl; [| lia].
  destruct b as [|y b]; simpl; [| lia].
  elim Hne. simpl. now rewrite app_nil_r.
Qed.

(** A way to check, by running [split], that no keyword is a token of its
    own. *)
Lemma proper_when_absent (u : char -> str) (query : str) :
  forallb (fun k => negb (contains (split (upper u query)) k))
    BLOCKED_KEYWORDS = true ->
  forall kw t,
    In kw BLOCKED_KEYWORDS -> token t (upper u query) -> substring kw t ->
    List.length kw < List.length t.
Proof.
  intros H kw t Hin Ht Hsub. apply substring_proper; [assumption |].
  intros <-. rewrite forallb_forall in H. specialize (H kw Hin).
  apply negb_true_iff in H.
  apply split_spec, contains_In in Ht. congruence.
Qed.

(** ** The claims about [execute_sql] *)

(** C1.  A query whose upper-cased form has a forbidden keyword as a
    whitespace-delimited token is answered with the blocked envelope, and
    the world after the call is the world before it: no call to the store
    client has been made, the trace and the external state are untouched. *)
Theorem C1_blocked_before_store (E : Env) (query kw : str) (w : world E) :
  In kw BLOCKED_KEYWORDS ->
  token kw (upper (unicode_upper E) query) ->
  exists rule,
    In rule BLOCKED_KEYWORDS /\
    execute_sql E query w = (Returned (blocked E rule), w) /\
    dict_get "status" (blocked E rule) = Some (VStr (lit "blocked")).
Proof.
  intros Hin Ht.
  destruct (guardrail (unicode_upper E) query) as [rule |] eqn:Hg.
  - exists rule. split; [exact (proj1 (guardrail_some _ _ _ Hg)) |].
    split; [now apply execute_sql_blocked | reflexivity].
  - rewrite guardrail_none in Hg. now elim (Hg kw Hin).
Qed.

Lemma C1_witness :
  exists rule,
    In rule BLOCKED_KEYWORDS /\
    execute_sql (shop 3 true) (lit "delete   from orders") (start 3 true)
    = (Returned (blocked (shop 3 true) rule), start 3 true) /\
    dict_get "status" (blocked (shop 3 true) rule)
    = Some (VStr (lit "blocked")).
Proof.
  apply (C1_blocked_before_store (shop 3 true) (lit "delete   from orders")
           (lit "DELETE")).
  - left. reflexivity.
  - apply split_spec. vm_compute. left. reflexivity.
Defined.

(** C2.  When the guardrail lets the query through and the store gives its
    rows, the envelope is the success envelope, [row_count] is the number of
    all the rows, and [results] holds the first [min 50 n] of them, each
    turned into a [dict], in the order of the store. *)
Theorem C2_row_count_is_full (E : Env) (query : str) (w : world E)
    (job : Job E) (it : RowIterator E) (rows : list (Row E))
    (s1 s2 s3 : St E) :
  guardrail (unicode_upper E) query = None ->
  bq_query E query (ext w) = (Returned job, s1) ->
  job_result E job s1 = (Returned it, s2) ->
  rows_of E it s2 = (Returned rows, s3) ->
  execute_sql E query w
  = (Returned
       [ ("status", VStr (lit "success"));
         ("row_count", VInt (Z.of_nat (List.length rows)));
         ("results",
          VList (map (fun r => VObj (row_dict E r)) (firstn 50 rows))) ]%string,
     {| ext := s3;
        trace := trace w ++ [StoreQuery query; StoreResult; StoreRows] |})
  /\ List.length (firstn 50 rows) = Nat.min 50 (List.length rows).
Proof.
  intros Hg H1 H2 H3. split; [| apply length_firstn].
  unfold execute_sql. rewrite Hg.
  unfold try_except, bind, call, ret.
  rewrite H1. cbv beta iota zeta delta [ext trace].
  rewrite H2. cbv beta iota zeta delta [ext trace].
  rewrite H3. cbv beta iota zeta delta [ext trace].
  rewrite length_map, firstn_map, <- !app_assoc. reflexivity.
Qed.

Lemma C2_witness :
  execute_sql (shop 120 true) (lit "SELECT * FROM orders") (start 120 true)
  = (Returned
       [ ("status", VStr (lit "success"));
         ("row_count", VInt 120%Z);
         ("results", VList (map (fun r => VObj r) (seq 0 50))) ]%string,
     Build_world (shop 120 true) tt
       [StoreQuery (lit "SELECT * FROM orders"); StoreResult; StoreRows])
  /\ List.length (firstn 50 (seq 0 120)) = 50.
Proof.
  apply (C2_row_count_is_full (shop 120 true) (lit "SELECT * FROM orders")
           (start 120 true) (lit "SELECT * FROM orders")
           (lit "SELECT * FROM orders") (seq 0 120) tt tt tt);
    reflexivity.
Defined.

(** C3.  When every forbidden keyword that occurs in a token of the
    upper-cased query is a proper part of that token, the guardrail lets the
    query through and [execute_sql] hands the query, as given, to the store
    client. *)
Theorem C3_substring_not_blocked (E : Env) (query : str) (w : world E) :
  (forall kw t,
     In kw BLOCKED_KEYWORDS ->
     token t (upper (unicode_upper E) query) ->
     substring kw t ->
     List.length kw < List.length t) ->
  guardrail (unicode_upper E) query = None /\
  exists env w' evs,
    execute_sql E query w = (Returned env, w') /\
    trace w' = trace w ++ StoreQuery query :: evs.
Proof.
  intros H.
  assert (Hg : guardrail (unicode_upper E) query = None).
  { apply guardrail_none. intros kw Hin Ht.
    assert (Hs : substring kw kw).
    { exists [], []. simpl. now rewrite app_nil_r. }
    specialize (H kw kw Hin Ht Hs). lia. }
  split; [assumption |].
  destruct (execute_sql_allowed E query w Hg)
    as (env & w' & evs & H1 & H2 & _).
  now exists env, w', evs.
Qed.

Lemma C3_witness :
  guardrail no_upper (lit "SELECT update_count FROM orders") = None /\
  exists env w' evs,
    execute_sql (shop 3 true) (lit "SELECT update_count FROM orders")
      (start 3 true) = (Returned env, w') /\
    trace w'
    = trace (start 3 true)
        ++ StoreQuery (lit "SELECT update_count FROM orders") :: evs.
Proof.
  apply (C3_substring_not_blocked (shop 3 true)
           (lit "SELECT update_count FROM orders") (start 3 true)).
  apply proper_when_absent. vm_compute. reflexivity.
Defined.

(** The keyword does occur inside the token of the example. *)
Example update_in_update_count :
  substring (lit "UPDATE") (lit "UPDATE_COUNT") /\
  In (lit "UPDATE_COUNT")
    (split (upper no_upper (lit "SELECT update_count FROM orders"))).
Proof.
  split.
  - exists [], (lit "_COUNT"). reflexivity.
  - vm_compute. right. left. reflexivity.
Qed.

(** C5.  The decision depends on the query alone.  The keyword found is
    the first of the policy list that is a token of the upper-cased query,
    and it is the rule [execute_sql] reports: when no keyword before it in
    the list is a token, the envelope is the blocked one with that keyword
    in its message, from any world.  Queries with the same tokens get the
    same decision, wherever the tokens stand; and two runs of [execute_sql]
    on one query, from any two worlds, either both come back with the same
    blocked envelope or both hand the query to the store. *)
Theorem C5_first_rule_in_policy_order (E : Env) :
  (forall query kw,
     guardrail (unicode_upper E) query = Some kw <->
     exists l1 l2,
       BLOCKED_KEYWORDS = l1 ++ kw :: l2 /\
       token kw (upper (unicode_upper E) query) /\
       forall k, In k l1 -> ~ token k (upper (unicode_upper E) query)) /\
  (forall query kw l1 l2 (w : world E),
     BLOCKED_KEYWORDS = l1 ++ kw :: l2 ->
     token kw (upper (unicode_upper E) query) ->
     (forall k, In k l1 -> ~ token k (upper (unicode_upper E) query)) ->
     execute_sql E query w
     = (Returned
          [ ("status", VStr (lit "blocked"));
            ("message",
             VStr (lit "Query blocked: contains '" ++ kw
                     ++ lit "' operation. This agent is read-only and cannot modify data.")%list)
          ]%string,
        w)) /\
  (forall q1 q2,
     (forall t, token t (upper (unicode_upper E) q1) <->
                token t (upper (unicode_upper E) q2)) ->
     guardrail (unicode_upper E) q1 = guardrail (unicode_upper E) q2 /\
     forall w : world E,
       fst (execute_sql E q1 w) = fst (execute_sql E q2 w) \/
       (guardrail (unicode_upper E) q1 = None /\
        guardrail (unicode_upper E) q2 = None)) /\
  (forall query (w1 w2 : world E),
     (exists rule,
        execute_sql E query w1 = (Returned (blocked E rule), w1) /\
        execute_sql E query w2 = (Returned (blocked E rule), w2)) \/
     (exists env1 env2 w1' w2' evs1 evs2,
        execute_sql E query w1 = (Returned env1, w1') /\
        trace w1' = trace w1 ++ StoreQuery query :: evs1 /\
        execute_sql E query w2 = (Returned env2, w2') /\
        trace w2' = trace w2 ++ StoreQuery query :: evs2)).
Proof.
  split; [intros query kw; apply guardrail_first |].
  split; [| split].
  - intros query kw l1 l2 w Hl Ht Hn.
    assert (Hg : guardrail (unicode_upper E) query = Some kw)
      by (apply guardrail_first; now exists l1, l2).
    now rewrite (execute_sql_blocked E query kw w Hg).
  - intros q1 q2 Ht.
    pose proof (guardrail_tokens (unicode_upper E) q1 q2 Ht) as Hg.
    split; [assumption |]. intros w.
    destruct (guardrail (unicode_upper E) q2) as [rule |] eqn:H2.
    + left. now rewrite (execute_sql_blocked E q1 rule w Hg),
        (execute_sql_blocked E q2 rule w H2).
    + right. now split.
  - intros query w1 w2.
    destruct (guardrail (unicode_upper E) query) as [rule |] eqn:Hg.
    + left. exists rule. split; now apply execute_sql_blocked.
    + right.
      destruct (execute_sql_allowed E query w1 Hg)
        as (env1 & w1' & evs1 & H1 & T1 & _).
      destruct (execute_sql_allowed E query w2 Hg)
        as (env2 & w2' & evs2 & H2 & T2 & _).
      now exists env1, env2, w1', w2', evs1, evs2.
Qed.

Lemma C5_witness :
  execute_sql (shop 3 true) (lit "update t set x = 1; drop table t")
    (start 3 true)
  = (Returned
       [ ("status", VStr (lit "blocked"));
         ("message",
          VStr (lit "Query blocked: contains 'DROP' operation. This agent is read-only and cannot modify data."))
       ]%string,
     start 3 true) /\
  guardrail no_upper (lit "drop t")
  = guardrail no_upper (lit "  T   DROP  ").
Proof.
  destruct (C5_first_rule_in_policy_order (shop 3 true))
    as (_ & H1 & H2 & _).
  split.
  - apply (H1 (lit "update t set x = 1; drop table t") (lit "DROP")
             [lit "DELETE"]
             [lit "TRUNCATE"; lit "UPDATE"; lit "INSERT"; lit "ALTER";
              lit "CREATE"; lit "MERGE"; lit "GRANT"; lit "REVOKE"]).
    + reflexivity.
    + apply split_spec. vm_compute. do 6 right. left. reflexivity.
    + intros k [<- | []] Hk. apply split_spec in Hk. vm_compute in Hk.
      repeat (destruct Hk as [Hk | Hk]; [discriminate Hk |]).
      exact Hk.
  - apply H2. intros t. rewrite <- !split_spec.
    assert (Hs : forall a b : list str,
               (forall x, In x a -> In x b) -> In t a -> In t b)
      by (intros a b H; apply H).
    split; apply Hs; vm_compute; tauto.
Defined.

(** C10.  A keyword fused to punctuation is not a token: for each of the two
    queries the upper-cased text holds a forbidden keyword, the guardrail
    lets the query through, and [execute_sql] hands it to the store
    client. *)
Theorem C10_keyword_fused_to_punctuation (E : Env) (w : world E) (query : str) :
  In query [lit "DELETE;FROM orders"; lit "DROP(TABLE)"] ->
  (exists kw,
     In kw BLOCKED_KEYWORDS /\
     substring kw (upper (unicode_upper E) query)) /\
  guardrail (unicode_upper E) query = None /\
  exists env w' evs,
    execute_sql E query w = (Returned env, w') /\
    trace w' = trace w ++ StoreQuery query :: evs.
Proof.
  intros Hq.
  assert (Hg : guardrail (unicode_upper E) query = None).
  { destruct Hq as [<- | [<- | []]]; vm_compute; reflexivity. }
  split; [| split; [assumption |]].
  - destruct Hq as [<- | [<- | []]].
    + exists (lit "DELETE"). split; [left; reflexivity |].
      exists [], (lit ";FROM ORDERS"). vm_compute. reflexivity.
    + exists (lit "DROP"). split; [right; left; reflexivity |].
      exists [], (lit "(TABLE)"). vm_compute. reflexivity.
  - destruct (execute_sql_allowed E query w Hg)
      as (env & w' & evs & H1 & H2 & _).
    now exists env, w', evs.
Qed.

Lemma C10_witness :
  (exists kw,
     In kw BLOCKED_KEYWORDS /\
     substring kw (upper no_upper (lit "DELETE;FROM orders"))) /\
  guardrail no_upper (lit "DELETE;FROM orders") = None /\
  exists env w' evs,
    execute_sql (shop 3 true) (lit "DELETE;FROM orders") (start 3 true)
    = (Returned env, w') /\
    trace w' = trace (start 3 true)
               ++ StoreQuery (lit "DELETE;FROM orders") :: evs.
Proof.
  apply (C10_keyword_fused_to_punctuation (shop 3 true) (start 3 true)
           (lit "DELETE;FROM orders")).
  left. reflexivity.
Defined.

(** C4.  From any world, each of the three tools ends with an envelope
    whose [status] is there once and is one of [success], [blocked],
    [error], whatever the store client does, raising included: the run never
    ends with an exception. *)
Theorem C4_tools_return_envelopes (E : Env) (w : world E) :
  (forall query, exists env w',
     execute_sql E query w = (Returned env, w') /\ tagged env) /\
  (forall table_name, exists env w',
     get_schema E table_name w = (Returned env, w') /\ tagged env) /\
  (exists env w', list_tables E w = (Returned env, w') /\ tagged env).
Proof.
  split; [| split].
  - intros query.
    destruct (execute_sql_total E query w) as (env & w' & _ & H & _ & _ & Ht).
    now exists env, w'.
  - intros table_name.
    destruct (get_schema_total E table_name w)
      as (env & w' & _ & H & _ & _ & Ht).
    now exists env, w'.
  - destruct (list_tables_total E w) as (env & w' & _ & H & _ & _ & Ht).
    now exists env, w'.
Qed.

(** A store that fails is answered with the error envelope and the store's
    message. *)
Example get_schema_unknown_table :
  fst (get_schema (shop 3 true) (lit "nope") (start 3 true))
  = Returned [ ("status", VStr (lit "error"));
               ("message", VStr (lit "404 Not found")) ]%string.
Proof. vm_compute. reflexivity. Qed.

(** C6, as the code has it.  The envelope of a blocked query has the two
    fields [status] and [message] and no other; the matched keyword stands
    inside the text of [message], between quotes, and no field of the
    envelope holds the keyword by itself. *)
Theorem C6_rule_only_in_message (E : Env) (query rule : str) (w : world E) :
  guardrail (unicode_upper E) query = Some rule ->
  exists env,
    execute_sql E query w = (Returned env, w) /\
    keys env = ["status"; "message"]%string /\
    dict_get "status" env = Some (VStr (lit "blocked")) /\
    dict_get "message" env
    = Some (VStr (lit "Query blocked: contains '" ++ rule
                    ++ lit "' operation. This agent is read-only and cannot modify data.")) /\
    forall k, dict_get k env <> Some (VStr rule).
Proof.
  intros Hg. exists (blocked E rule).
  split; [now apply execute_sql_blocked |].
  split; [reflexivity |]. split; [reflexivity |]. split; [reflexivity |].
  intros k. unfold blocked, dict_get.
  destruct (String.eqb "status" k); [| destruct (String.eqb "message" k)].
  - intros [= H]. apply guardrail_some in Hg. destruct Hg as [Hin _].
    subst rule. vm_compute in Hin.
    repeat (destruct Hin as [Hin | Hin]; [discriminate Hin |]).
    exact Hin.
  - intros [= H]. apply (f_equal (@List.length char)) in H.
    unfold blocked_message in H. rewrite !length_app in H.
    vm_compute (List.length (lit _)) in H. lia.
  - discriminate.
Qed.

Lemma C6_witness :
  exists env,
    execute_sql (shop 3 true) (lit "DELETE FROM orders") (start 3 true)
    = (Returned env, start 3 true) /\
    keys env = ["status"; "message"]%string /\
    dict_get "status" env = Some (VStr (lit "blocked")) /\
    dict_get "message" env
    = Some (VStr (lit "Query blocked: contains 'DELETE' operation. This agent is read-only and cannot modify data.")) /\
    forall k, dict_get k env <> Some (VStr (lit "DELETE")).
Proof.
  apply (C6_rule_only_in_message (shop 3 true) (lit "DELETE FROM orders")
           (lit "DELETE") (start 3 true)).
  reflexivity.
Defined.

(** C6 as stated fails: for ["DELETE FROM orders"] the envelope has no
    [rule] field, and no field at all whose value is the keyword. *)
Lemma C6_counterexample :
  exists env,
    fst (execute_sql (shop 3 true) (lit "DELETE FROM orders") (start 3 true))
    = Returned env /\
    keys env = ["status"; "message"]%string /\
    dict_get "rule" env = None /\
    ~ exists k, dict_get k env = Some (VStr (lit "DELETE")).
Proof.
  eexists. split; [vm_compute; reflexivity |].
  split; [reflexivity |]. split; [reflexivity |].
  intros (k & Hk). unfold dict_get in Hk.
  destruct (String.eqb "status" k); [| destruct (String.eqb "message" k)];
    discriminate Hk.
Qed.

(** ** [get_schema] *)

(** C9.  [get_schema] asks the client for
    [PROJECT_ID.DATASET_ID.table_name], once.  When the client gives the
    table, the envelope holds that reference, the table's row count, and one
    name/type/mode entry per field of the schema, in the order of the
    schema; when the client raises, the envelope is the error envelope with
    the message of the exception. *)
Theorem C9_get_schema (E : Env) (table_name : str) (w : world E) :
  let table_ref :=
    lit "playground-s-11-6d7b503d" ++ lit "." ++ lit "ecom_analytics"
      ++ lit "." ++ table_name in
  match bq_get_table E table_ref (ext w) with
  | (Returned table, s) =>
      get_schema E table_name w
      = (Returned
           [ ("status", VStr (lit "success"));
             ("table", VStr table_ref);
             ("total_rows",
              match num_rows table with
              | Some n => VInt n
              | None => VNone
              end);
             ("columns",
              VList
                (map (fun f =>
                        VDict [ ("name", VStr (name f));
                                ("type", VStr (field_type f));
                                ("mode", VStr (mode f)) ]%string)
                   (schema table))) ]%string,
         {| ext := s; trace := trace w ++ [StoreGetTable table_ref] |})
  | (Raised e, s) =>
      get_schema E table_name w
      = (Returned [ ("status", VStr (lit "error"));
                    ("message", VStr (str_of_exn e)) ]%string,
         {| ext := s; trace := trace w ++ [StoreGetTable table_ref] |})
  end.
Proof.
  intros table_ref.
  unfold get_schema, try_except, bind, call, ret, error.
  change (table_ref_of table_name) with table_ref.
  destruct (bq_get_table E table_ref (ext w)) as [[table | e] s];
    reflexivity.
Qed.

(** The example of the two columns. *)
Example get_schema_products :
  fst (get_schema (shop 3 true) (lit "products") (start 3 true))
  = Returned
      [ ("status", VStr (lit "success"));
        ("table", VStr (lit "playground-s-11-6d7b503d.ecom_analytics.products"));
        ("total_rows", VInt 50%Z);
        ("columns",
         VList
           [ VDict [ ("name", VStr (lit "product_id"));
                     ("type", VStr (lit "INT64"));
                     ("mode", VStr (lit "REQUIRED")) ]%string;
             VDict [ ("name", VStr (lit "is_active"));
                     ("type", VStr (lit "BOOL"));
                     ("mode", VStr (lit "NULLABLE")) ]%string ]) ]%string.
Proof. vm_compute. reflexivity. Qed.

(** ** The callbacks and the dispatch *)

Section HookFacts.

Variable E : Env.

(** What a hook does follows what the standard output does with the text of
    its line and then with the line end. *)
Lemma print_then_none (line : str) (w : world E) :
  match stdout_write E line (ext w) with
  | (Raised e, s) =>
      bind (print line) (fun _ => ret (@None (value (Obj E)))) w
      = (Raised e, {| ext := s; trace := trace w |})
  | (Returned _, s) =>
      match stdout_write E newline s with
      | (Raised e, s') =>
          bind (print line) (fun _ => ret (@None (value (Obj E)))) w
          = (Raised e, {| ext := s'; trace := trace w ++ [Printed line] |})
      | (Returned _, s') =>
          bind (print line) (fun _ => ret (@None (value (Obj E)))) w
          = (Returned None,
             {| ext := s'; trace := trace w ++ [Printed line] |})
      end
  end.
Proof.
  unfold bind, print, ret.
  destruct (stdout_write E line (ext w)) as [[[] | e] s]; [| reflexivity].
  destruct (stdout_write E newline s) as [[[] | e] s']; reflexivity.
Qed.

Lemma print_accepted (line : str) (w : world E) :
  sink_accepts E ->
  exists w1,
    bind (print line) (fun _ => ret (@None (value (Obj E)))) w
    = (Returned None, w1) /\
    trace w1 = trace w ++ [Printed line].
Proof.
  intros Hs. destruct (Hs line (ext w)) as (s & H).
  destruct (Hs newline s) as (s' & H').
  pose proof (print_then_none line w) as P.
  rewrite H, H' in P. eexists. split; [exact P | reflexivity].
Qed.

Lemma before_accepted (t : tool E) (args : dict (Obj E)) (w : world E) :
  sink_accepts E ->
  exists w1,
    before_tool_callback t args w = (Returned None, w1) /\
    trace w1 = trace w ++ [Printed (before_line t args)].
Proof. intros Hs. exact (print_accepted (before_line t args) w Hs). Qed.

Lemma after_accepted (t : tool E) (args : dict (Obj E))
    (response : value (Obj E)) (w : world E) :
  sink_accepts E ->
  exists w3,
    after_tool_callback t args response w = (Returned None, w3) /\
    trace w3 = trace w ++ [Printed (after_line t response)].
Proof. intros Hs. exact (print_accepted (after_line t response) w Hs). Qed.

Lemma store_calls_not_printed (evs : list event) :
  forallb is_store_call evs = true -> filter is_printed evs = [].
Proof.
  induction evs as [|ev evs IH]; simpl; [reflexivity |].
  intros H. apply andb_true_iff in H. destruct H as [Hev Hevs].
  destruct ev; simpl in *; try discriminate; now apply IH.
Qed.

Variable misfit : str -> dict (Obj E) -> M E (value (Obj E)).

Lemma call_with_str_quiet (param : string)
    (f : str -> M E (dict (Obj E))) (name' : str) (args : dict (Obj E)) :
  (forall s w, exists env w' evs,
      f s w = (Returned env, w') /\ trace w' = trace w ++ evs /\
      forallb is_store_call evs = true /\ tagged env) ->
  one_str E param args = true ->
  quiet_body
    {| tool_name := name'; run := call_with_str E misfit name' param f |}
    args.
Proof.
  intros Hf Ha w1. unfold one_str in Ha.
  destruct args as [|[k [| | s | | |]] [|]]; try discriminate.
  simpl. rewrite Ha. unfold bind, ret.
  destruct (Hf s w1) as (env & w' & evs & H1 & H2 & H3 & H4).
  exists (VDict env), w', evs. rewrite H1.
  split; [reflexivity |]. split; [assumption |].
  split; [now apply store_calls_not_printed |].
  right. now exists env.
Qed.

(** A dispatch whose hooks can print and whose body is quiet: the trace
    grows by the pre-call line, what the body does, and the post-call line,
    and the response of the body is what comes back. *)
Lemma dispatch_audited (t : tool E) (name' : str) (args : dict (Obj E))
    (w : world E) :
  find (fun t => str_eqb (tool_name t) name') (registry E misfit) = Some t ->
  sink_accepts E ->
  quiet_body t args ->
  exists response w1 w2 w3 evs,
    before_tool_callback t args w = (Returned None, w1) /\
    trace w1 = trace w ++ [Printed (before_line t args)] /\
    run t args w1 = (Returned response, w2) /\
    trace w2 = trace w1 ++ evs /\
    filter is_printed evs = [] /\
    after_tool_callback t args response w2 = (Returned None, w3) /\
    trace w3 = trace w2 ++ [Printed (after_line t response)] /\
    dispatch E misfit name' args w = (Returned response, w3) /\
    filter is_printed (trace w3)
    = filter is_printed (trace w)
        ++ [Printed (before_line t args); Printed (after_line t response)] /\
    (tool_name t = lit "sql_validator" \/
     exists env, response = VDict env /\ tagged env).
Proof.
  intros Hfind Hs Hq.
  destruct (before_accepted t args w Hs) as (w1 & B1 & B2).
  destruct (Hq w1) as (response & w2 & evs & R1 & R2 & R3 & R4).
  destruct (after_accepted t args response w2 Hs) as (w3 & A1 & A2).
  exists response, w1, w2, w3, evs.
  repeat (split; [assumption |]).
  split; [| split; [| assumption]].
  - unfold dispatch. rewrite Hfind. unfold bind at 1. rewrite B1.
    unfold bind at 1. rewrite R1. unfold bind. rewrite A1. reflexivity.
  - rewrite A2, R2, B2, !filter_app, R3. simpl.
    now rewrite app_nil_r, <- app_assoc.
Qed.

End HookFacts.

(** C7, as the code has it.  Neither hook has a handler around its [print]:
    when the write of the text or the write of the line end raises, the hook
    ends with that same exception, which reaches whoever called the hook;
    when both writes return, the hook returns [None] and its line is in the
    trace. *)
Theorem C7_print_failure_leaves_hook (E : Env) (t : tool E)
    (args : dict (Obj E)) (tool_response : value (Obj E)) (w : world E) :
  match stdout_write E (before_line t args) (ext w) with
  | (Raised e, _) => fst (before_tool_callback t args w) = Raised e
  | (Returned _, s) =>
      match stdout_write E newline s with
      | (Raised e, _) => fst (before_tool_callback t args w) = Raised e
      | (Returned _, s') =>
          before_tool_callback t args w
          = (Returned None,
             {| ext := s';
                trace := trace w ++ [Printed (before_line t args)] |})
      end
  end /\
  match stdout_write E (after_line t tool_response) (ext w) with
  | (Raised e, _) =>
      fst (after_tool_callback t args tool_response w) = Raised e
  | (Returned _, s) =>
      match stdout_write E newline s with
      | (Raised e, _) =>
          fst (after_tool_callback t args tool_response w) = Raised e
      | (Returned _, s') =>
          after_tool_callback t args tool_response w
          = (Returned None,
             {| ext := s';
                trace := trace w ++ [Printed (after_line t tool_response)] |})
      end
  end.
Proof.
  split.
  - pose proof (print_then_none E (before_line t args) w) as P.
    unfold before_tool_callback.
    destruct (stdout_write E (before_line t args) (ext w)) as [[[] | e] s];
      [| now rewrite P].
    destruct (stdout_write E newline s) as [[[] | e] s'];
      [exact P | now rewrite P].
  - pose proof (print_then_none E (after_line t tool_response) w) as P.
    unfold after_tool_callback.
    destruct (stdout_write E (after_line t tool_response) (ext w))
      as [[[] | e] s]; [| now rewrite P].
    destruct (stdout_write E newline s) as [[[] | e] s'];
      [exact P | now rewrite P].
Qed.

(** C7 as stated fails: with a standard output that cannot be written to,
    each hook ends with the exception of [print] instead of returning. *)
Lemma C7_counterexample :
  fst (before_tool_callback (sql_validator_tool (shop 3 false))
         [("request", VStr (lit "SELECT 1"))]%string (start 3 false))
  = Raised (Exception (lit "Broken pipe")) /\
  fst (after_tool_callback (sql_validator_tool (shop 3 false))
         [("request", VStr (lit "SELECT 1"))]%string
         (VStr (lit "VERDICT: SAFE")) (start 3 false))
  = Raised (Exception (lit "Broken pipe")).
Proof. split; vm_compute; reflexivity. Qed.

(** The same when the text is written and the line end is not: the hook
    raises with its text already out. *)
Example hook_fails_at_line_end :
  before_tool_callback (sql_validator_tool pipe)
    [("request", VStr (lit "SELECT 1"))]%string (Build_world pipe 1 [])
  = (Raised (Exception (lit "Broken pipe")),
     Build_world pipe 0
       [Printed (lit "BEFORE TOOL | sql_validator | Args: {...}")]).
Proof. vm_compute. reflexivity. Qed.




(** The two lines of a blocked [execute_sql], and the envelope that comes
    back. *)
Example dispatch_blocked_query :
  dispatch (shop 3 true) (refused (shop 3 true)) (lit "execute_sql")
    [("query", VStr (lit "DROP TABLE orders"))]%string (start 3 true)
  = (Returned (VDict (blocked (shop 3 true) (lit "DROP"))),
     Build_world (shop 3 true) tt
       [ Printed (lit "BEFORE TOOL | execute_sql | Args: {...}");
         Printed (lit "AUDIT LOG | Tool: execute_sql | Response: {...}") ]).
Proof. vm_compute. reflexivity. Qed.

(** An allowed query: the store calls stand between the two lines. *)
Example dispatch_allowed_query :
  snd (dispatch (shop 3 true) (refused (shop 3 true)) (lit "execute_sql")
         [("query", VStr (lit "SELECT 1"))]%string (start 3 true))
  = Build_world (shop 3 true) tt
      [ Printed (lit "BEFORE TOOL | execute_sql | Args: {...}");
        StoreQuery (lit "SELECT 1"); StoreResult; StoreRows;
        Printed (lit "AUDIT LOG | Tool: execute_sql | Response: {...}") ].
Proof. vm_compute. reflexivity. Qed.

(** A name that is not registered: no hook runs. *)
Example dispatch_unknown_tool :
  dispatch (shop 3 true) (refused (shop 3 true)) (lit "unknown_tool") []
    (start 3 true)
  = (Returned (unknown_tool (shop 3 true)), start 3 true).
Proof. vm_compute. reflexivity. Qed.

(** * Further properties of the tools *)

(** ** More on tokens *)

Lemma split_app_space (a b : str) (c : char) :
  is_space c = true -> split (a ++ c :: b) = split a ++ split b.
Proof.
  intros Hc. unfold split at 1. rewrite (words_app_space a b c Hc).
  rewrite cons_word_app. unfold split at 2.
  now destruct (words a).
Qed.

Lemma words_blank (s : str) :
  forallb is_space s = true -> words s = ([], []).
Proof.
  induction s as [|c s IH]; simpl; [reflexivity |].
  intros H. apply andb_true_iff in H. destruct H as [Hc Hs].
  now rewrite (IH Hs), Hc.
Qed.

Lemma ascii_upper_space (c : char) : is_space c = true -> ascii_upper c = c.
Proof.
  intros Hc. unfold ascii_upper.
  destruct ((97 <=? c) && (c <=? 122))%N eqn:H; [| reflexivity].
  apply andb_true_iff in H. destruct H as [H1 H2].
  apply N.leb_le in H1, H2. apply is_space_bounds in Hc. lia.
Qed.

(** A token of the upper-cased ASCII text is the upper-cased form of a token
    of the text. *)
Lemma token_ascii_upper_inv (t' s : str) :
  token t' (map ascii_upper s) ->
  exists t, token t s /\ map ascii_upper t = t'.
Proof.
  intros (Ht & Hn & pre' & post' & Hs & Hpre & Hpost).
  apply map_eq_app in Hs. destruct Hs as (pre & rest & -> & <- & Hr).
  apply map_eq_app in Hr. destruct Hr as (t & post & -> & <- & <-).
  exists t. split; [| reflexivity].
  split; [intros ->; now apply Ht |]. split.
  - rewrite forallb_forall in *. intros c Hc.
    specialize (Hn (ascii_upper c) (in_map _ _ _ Hc)).
    unfold nonspace in *. now rewrite is_space_ascii_upper in Hn.
  - exists pre, post. split; [reflexivity |]. split.
    + destruct Hpre as [H | (p' & c' & H & Hc')].
      * left. now apply map_eq_nil in H.
      * right. apply map_eq_app in H.
        destruct H as (p & l & -> & _ & Hl).
        apply map_eq_cons in Hl. destruct Hl as (c & tl & -> & <- & Htl).
        apply map_eq_nil in Htl. subst tl.
        exists p, c. split; [reflexivity |].
        now rewrite is_space_ascii_upper in Hc'.
    + destruct post as [|c post]; [exact I |]. simpl in *.
      now rewrite is_space_ascii_upper in Hpost.
Qed.

Section MoreGuardrailFacts.

Variable u : char -> str.

Lemma upper_app (a b : str) : upper u (a ++ b) = upper u a ++ upper u b.
Proof. apply flat_map_app. Qed.

Lemma upper_char_space (c : char) :
  is_space c = true -> (c <? 128)%N = true -> upper_char u c = [c].
Proof.
  intros Hc Ha. unfold upper_char. rewrite Ha.
  now rewrite (ascii_upper_space c Hc).
Qed.

(** The tokens of two texts joined by an ASCII whitespace character are the
    tokens of the first followed by the tokens of the second. *)
Lemma tokens_join (a b : str) (c : char) :
  is_space c = true -> (c <? 128)%N = true ->
  split (upper u (a ++ c :: b)) = split (upper u a) ++ split (upper u b).
Proof.
  intros Hc Ha.
  change (c :: b) with ([c] ++ b). rewrite !upper_app.
  unfold upper at 2. simpl. rewrite (upper_char_space c Hc Ha). simpl.
  now apply split_app_space.
Qed.

Lemma upper_blank (s : str) : is_blank s = true -> upper u s = s.
Proof.
  induction s as [|c s IH]; simpl; [reflexivity |].
  intros H. apply andb_true_iff in H. destruct H as [Hc Hs].
  apply andb_true_iff in Hc. destruct Hc as [Hc Ha].
  rewrite (upper_char_space c Hc Ha). simpl. f_equal. now apply IH.
Qed.

Lemma blank_is_space (s : str) :
  is_blank s = true -> forallb is_space s = true.
Proof.
  unfold is_blank. rewrite !forallb_forall. intros H c Hc.
  specialize (H c Hc). now apply andb_true_iff in H.
Qed.

End MoreGuardrailFacts.

(** ** More on [execute_sql] *)

(** X1.  For a query of ASCII characters, [execute_sql] answers with the
    blocked envelope, without any call, exactly when some whitespace-delimited
    token of the query as written reads as one of the keywords once its
    letters are upper-cased. *)
Theorem X1_ascii_blocked_iff (E : Env) (query : str) (w : world E) :
  is_ascii query = true ->
  ((exists t, token t query /\ In (map ascii_upper t) BLOCKED_KEYWORDS) <->
   (exists rule w', execute_sql E query w = (Returned (blocked E rule), w'))).
Proof.
  intros Hq. split.
  - intros (t & Ht & Hin).
    apply (token_upper_ascii (unicode_upper E) _ _ Hq) in Ht.
    destruct (guardrail (unicode_upper E) query) as [rule |] eqn:Hg.
    + exists rule, w. now apply execute_sql_blocked.
    + rewrite guardrail_none in Hg. now elim (Hg _ Hin).
  - intros (rule & w' & Hr).
    destruct (guardrail (unicode_upper E) query) as [rule' |] eqn:Hg.
    + apply guardrail_some in Hg. destruct Hg as [Hin Ht].
      rewrite (upper_ascii (unicode_upper E) _ Hq) in Ht.
      apply token_ascii_upper_inv in Ht. destruct Ht as (t & Ht & <-).
      now exists t.
    + unfold execute_sql in Hr. rewrite Hg in Hr.
      unfold try_except, bind, call, ret, error, blocked in Hr.
      destruct (bq_query E query (ext w)) as [[job | e] s1]; simpl in Hr;
        [| injection Hr as Hs _; vm_compute in Hs; discriminate Hs].
      destruct (job_result E job s1) as [[it | e] s2]; simpl in Hr;
        [| injection Hr as Hs _; vm_compute in Hs; discriminate Hs].
      destruct (rows_of E it s2) as [[rows | e] s3]; simpl in Hr;
        injection Hr as Hs _; vm_compute in Hs; discriminate Hs.
Qed.

Lemma X1_witness :
  exists rule w',
    execute_sql (shop 3 true) (lit "Select 1; dRoP table t") (start 3 true)
    = (Returned (blocked (shop 3 true) rule), w').
Proof.
  apply (X1_ascii_blocked_iff (shop 3 true) (lit "Select 1; dRoP table t")
           (start 3 true)); [reflexivity |].
  exists (lit "dRoP"). split.
  - apply split_spec. vm_compute. do 2 right. left. reflexivity.
  - vm_compute. right. left. reflexivity.
Defined.

(** X2.  A query made of two parts joined by an ASCII whitespace character
    passes the keyword check exactly when both parts pass it: text added
    before or after a blocked query, set apart by whitespace, does not unblock
    it. *)
Theorem X2_joined_queries (u : char -> str) (a b : str) (c : char) :
  is_space c = true -> (c <? 128)%N = true ->
  (guardrail u (a ++ c :: b) = None <->
   guardrail u a = None /\ guardrail u b = None).
Proof.
  intros Hc Ha. rewrite !guardrail_none.
  assert (Ht : forall kw,
             token kw (upper u (a ++ c :: b)) <->
             token kw (upper u a) \/ token kw (upper u b)).
  { intros kw. rewrite <- !split_spec, (tokens_join u a b c Hc Ha).
    apply in_app_iff. }
  split.
  - intros H. split; intros kw Hin Hk; apply (H kw Hin), Ht; tauto.
  - intros [H1 H2] kw Hin Hk. apply Ht in Hk.
    destruct Hk as [Hk | Hk]; [now apply (H1 kw Hin) | now apply (H2 kw Hin)].
Qed.

Lemma X2_witness :
  guardrail no_upper (lit "SELECT 1;" ++ 10%N :: lit "drop table t") = None <->
  guardrail no_upper (lit "SELECT 1;") = None /\
  guardrail no_upper (lit "drop table t") = None.
Proof.
  apply (X2_joined_queries no_upper (lit "SELECT 1;") (lit "drop table t")
           10%N); reflexivity.
Defined.

(** The second part of the example is blocked, and so is the whole. *)
Example joined_query_blocked :
  guardrail no_upper (lit "drop table t") = Some (lit "DROP") /\
  guardrail no_upper (lit "SELECT 1;" ++ 10%N :: lit "drop table t")
  = Some (lit "DROP").
Proof. split; vm_compute; reflexivity. Qed.

(** X3.  An empty query, or one made of ASCII whitespace only, is not
    blocked: it is handed to the store client as it is. *)
Theorem X3_blank_query_is_submitted (E : Env) (query : str) (w : world E) :
  is_blank query = true ->
  guardrail (unicode_upper E) query = None /\
  exists env w' evs,
    execute_sql E query w = (Returned env, w') /\
    trace w' = trace w ++ StoreQuery query :: evs.
Proof.
  intros Hb.
  assert (Hg : guardrail (unicode_upper E) query = None).
  { apply guardrail_none. intros kw _ Ht.
    rewrite (upper_blank (unicode_upper E) query Hb) in Ht.
    apply split_spec in Ht. unfold split in Ht.
    now rewrite (words_blank query (blank_is_space query Hb)) in Ht. }
  split; [assumption |].
  destruct (execute_sql_allowed E query w Hg)
    as (env & w' & evs & H1 & H2 & _).
  now exists env, w', evs.
Qed.

Lemma X3_witness :
  guardrail no_upper [] = None /\
  exists env w' evs,
    execute_sql (shop 3 true) [] (start 3 true) = (Returned env, w') /\
    trace w' = trace (start 3 true) ++ StoreQuery [] :: evs.
Proof.
  apply (X3_blank_query_is_submitted (shop 3 true) [] (start 3 true)).
  reflexivity.
Defined.

(** X4.  An allowed run calls the client in the order [query], [result()],
    iteration, once each, and stops at the first call that raises: the
    envelope is then the error envelope with the message of that exception,
    nothing of the rows is given, and no call is made again. *)
Theorem X4_first_failure_ends_the_run (E : Env) (query : str) (w : world E) :
  guardrail (unicode_upper E) query = None ->
  match bq_query E query (ext w) with
  | (Raised e, s1) =>
      execute_sql E query w
      = (Returned [ ("status", VStr (lit "error"));
                    ("message", VStr (str_of_exn e)) ]%string,
         {| ext := s1; trace := trace w ++ [StoreQuery query] |})
  | (Returned job, s1) =>
      match job_result E job s1 with
      | (Raised e, s2) =>
          execute_sql E query w
          = (Returned [ ("status", VStr (lit "error"));
                        ("message", VStr (str_of_exn e)) ]%string,
             {| ext := s2;
                trace := trace w ++ [StoreQuery query; StoreResult] |})
      | (Returned it, s2) =>
          match rows_of E it s2 with
          | (Raised e, s3) =>
              execute_sql E query w
              = (Returned [ ("status", VStr (lit "error"));
                            ("message", VStr (str_of_exn e)) ]%string,
                 {| ext := s3;
                    trace := trace w
                             ++ [StoreQuery query; StoreResult; StoreRows] |})
          | (Returned rows, s3) =>
              exists env,
                execute_sql E query w
                = (Returned env,
                   {| ext := s3;
                      trace := trace w
                               ++ [StoreQuery query; StoreResult; StoreRows] |})
                /\ dict_get "status" env = Some (VStr (lit "success"))
          end
      end
  end.
Proof.
  intros Hg. unfold execute_sql. rewrite Hg.
  unfold try_except, bind, call, ret, error.
  destruct (bq_query E query (ext w)) as [[job | e] s1]; simpl;
    [| reflexivity].
  destruct (job_result E job s1) as [[it | e] s2]; simpl;
    [| now rewrite <- app_assoc].
  destruct (rows_of E it s2) as [[rows | e] s3]; simpl.
  - eexists. split; [now rewrite <- !app_assoc | reflexivity].
  - now rewrite <- !app_assoc.
Qed.

Lemma X4_witness :
  execute_sql (flaky 2) (lit "SELECT 1") (flaky_start 2)
  = (Returned [ ("status", VStr (lit "error"));
                ("message", VStr (lit "Connection reset")) ]%string,
     Build_world (flaky 2) 3
       [StoreQuery (lit "SELECT 1"); StoreResult; StoreRows]).
Proof.
  exact (X4_first_failure_ends_the_run (flaky 2) (lit "SELECT 1")
           (flaky_start 2) eq_refl).
Defined.

(** X5.  Whatever the outcome, the envelope of [execute_sql] has [results]
    and [row_count] exactly when its status is [success]; [results] then has
    at most 50 entries and never more than [row_count], and it has
    [row_count] entries exactly when [row_count] is at most 50. *)
Theorem X5_results_within_cap (E : Env) (query : str) (w : world E) :
  exists env w',
    execute_sql E query w = (Returned env, w') /\
    ((dict_get "results" env = None /\
      dict_get "row_count" env = None /\
      dict_get "status" env <> Some (VStr (lit "success"))) \/
     (exists rows n,
        dict_get "status" env = Some (VStr (lit "success")) /\
        dict_get "results" env = Some (VList rows) /\
        dict_get "row_count" env = Some (VInt n) /\
        List.length rows <= 50 /\
        (Z.of_nat (List.length rows) <= n)%Z /\
        (Z.of_nat (List.length rows) = n <-> (n <= 50)%Z))).
Proof.
  assert (Hne : forall tag,
             tag <> lit "success" ->
             Some (@VStr (Obj E) tag) <> Some (VStr (lit "success")))
    by (intros tag H [= H']; now apply H).
  assert (Hno : forall k m,
             k <> lit "success" ->
             let env := [ ("status", @VStr (Obj E) k);
                          ("message", VStr m) ]%string in
             dict_get "results" env = None /\
             dict_get "row_count" env = None /\
             dict_get "status" env <> Some (VStr (lit "success"))).
  { intros k m Hk. split; [reflexivity |]. split; [reflexivity |].
    now apply Hne. }
  unfold execute_sql.
  destruct (guardrail (unicode_upper E) query) as [rule |].
  { do 2 eexists. split; [reflexivity |]. left.
    apply Hno. vm_compute. discriminate. }
  unfold try_except, bind, call, ret, error.
  destruct (bq_query E query (ext w)) as [[job | e] s1];
    cbv beta iota zeta delta [ext trace].
  2: { do 2 eexists. split; [reflexivity |]. left.
       apply Hno. vm_compute. discriminate. }
  destruct (job_result E job s1) as [[it | e] s2];
    cbv beta iota zeta delta [ext trace].
  2: { do 2 eexists. split; [reflexivity |]. left.
       apply Hno. vm_compute. discriminate. }
  destruct (rows_of E it s2) as [[rows | e] s3];
    cbv beta iota zeta delta [ext trace].
  2: { do 2 eexists. split; [reflexivity |]. left.
       apply Hno. vm_compute. discriminate. }
  do 2 eexists. split; [reflexivity |]. right.
  do 2 eexists. split; [reflexivity |]. split; [reflexivity |].
  split; [reflexivity |].
  rewrite length_firstn. lia.
Qed.

(** X8 below needs every keyword to be found by its own test first: the list
    has no keyword twice, and each keyword is one token. *)
Lemma keyword_alone (u : char -> str) (t kw : str) :
  In kw BLOCKED_KEYWORDS ->
  is_ascii t = true ->
  map ascii_upper t = kw ->
  guardrail u t = Some kw.
Proof.
  intros Hin Ha Hk. unfold guardrail.
  rewrite (upper_ascii u t Ha), Hk.
  vm_compute in Hin.
  repeat (destruct Hin as [<- | Hin]; [vm_compute; reflexivity |]).
  contradiction.
Qed.

Lemma blocked_message_inj (k1 k2 : str) :
  blocked_message k1 = blocked_message k2 -> k1 = k2.
Proof.
  unfold blocked_message. intros H.
  apply app_inv_head in H. now apply app_inv_tail in H.
Qed.

(** ** [list_tables] *)

(** X6.  [list_tables] asks the client once for the tables of
    [PROJECT_ID.DATASET_ID].  When the client gives them, the envelope names
    the dataset and holds the [table_id] of every table, in the order of the
    client, an empty dataset giving an empty list; when the client raises,
    the envelope is the error envelope with the message of the exception. *)
Theorem X6_list_tables (E : Env) (w : world E) :
  let dataset :=
    lit "playground-s-11-6d7b503d" ++ lit "." ++ lit "ecom_analytics" in
  match bq_list_tables E dataset (ext w) with
  | (Returned tables, s) =>
      list_tables E w
      = (Returned
           [ ("status", VStr (lit "success"));
             ("dataset", VStr dataset);
             ("tables", VList (map (fun t => VStr (table_id t)) tables))
           ]%string,
         {| ext := s; trace := trace w ++ [StoreListTables dataset] |})
  | (Raised e, s) =>
      list_tables E w
      = (Returned [ ("status", VStr (lit "error"));
                    ("message", VStr (str_of_exn e)) ]%string,
         {| ext := s; trace := trace w ++ [StoreListTables dataset] |})
  end.
Proof.
  intros dataset.
  unfold list_tables, try_except, bind, call, ret, error.
  change dataset_ref with dataset.
  destruct (bq_list_tables E dataset (ext w)) as [[tables | e] s];
    reflexivity.
Qed.

Example list_tables_three :
  fst (list_tables (flaky 3) (flaky_start 3))
  = Returned
      [ ("status", VStr (lit "success"));
        ("dataset", VStr (lit "playground-s-11-6d7b503d.ecom_analytics"));
        ("tables", VList [ VStr (lit "products"); VStr (lit "customers");
                           VStr (lit "orders") ]) ]%string.
Proof. vm_compute. reflexivity. Qed.

(** ** The lines of the callbacks *)

(** X7.  The line of the pre-call hook is 23 characters, the name of the
    tool, and at most 200 characters of [str(args)]; the line of the
    post-call hook is 31 characters, the name of the tool, and at most 300
    characters of [str(tool_response)].  What is kept of either text is its
    beginning. *)
Theorem X7_audit_lines_are_bounded (E : Env) (t : tool E)
    (args : dict (Obj E)) (tool_response : value (Obj E)) :
  List.length (before_line t args)
  = 23 + List.length (tool_name t)
    + Nat.min 200 (List.length (py_str E (VDict args))) /\
  List.length (after_line t tool_response)
  = 31 + List.length (tool_name t)
    + Nat.min 300 (List.length (py_str E tool_response)) /\
  (exists cut,
     py_str E (VDict args) = cut ++ skipn 200 (py_str E (VDict args)) /\
     before_line t args
     = lit "BEFORE TOOL | " ++ tool_name t ++ lit " | Args: " ++ cut) /\
  (exists cut,
     py_str E tool_response = cut ++ skipn 300 (py_str E tool_response) /\
     after_line t tool_response
     = lit "AUDIT LOG | Tool: " ++ tool_name t ++ lit " | Response: " ++ cut).
Proof.
  unfold before_line, after_line.
  split; [| split; [| split]].
  - rewrite !length_app, length_firstn.
    change (List.length (lit "BEFORE TOOL | ")) with 14.
    change (List.length (lit " | Args: ")) with 9. lia.
  - rewrite !length_app, length_firstn.
    change (List.length (lit "AUDIT LOG | Tool: ")) with 18.
    change (List.length (lit " | Response: ")) with 13. lia.
  - eexists. split; [| reflexivity]. now rewrite firstn_skipn.
  - eexists. split; [| reflexivity]. now rewrite firstn_skipn.
Qed.

(** ** The keyword list *)

(** X8.  Every keyword of the list does its work, in any letter case: a
    query that is one of the keywords, with its letters in upper or lower
    case at will, is blocked, and the rule named is that keyword. *)
Theorem X8_keyword_alone_is_blocked (E : Env) (t kw : str) (w : world E) :
  In kw BLOCKED_KEYWORDS ->
  is_ascii t = true ->
  map ascii_upper t = kw ->
  execute_sql E t w = (Returned (blocked E kw), w) /\
  dict_get "message" (blocked E kw)
  = Some (VStr (lit "Query blocked: contains '" ++ kw
                  ++ lit "' operation. This agent is read-only and cannot modify data.")).
Proof.
  intros Hin Ha Hk. split; [| reflexivity].
  apply execute_sql_blocked. now apply keyword_alone.
Qed.

Lemma X8_witness :
  execute_sql (shop 3 true) (lit "tRuNcAtE") (start 3 true)
  = (Returned (blocked (shop 3 true) (lit "TRUNCATE")), start 3 true) /\
  dict_get "message" (blocked (shop 3 true) (lit "TRUNCATE"))
  = Some (VStr (lit "Query blocked: contains 'TRUNCATE' operation. This agent is read-only and cannot modify data.")).
Proof.
  apply (X8_keyword_alone_is_blocked (shop 3 true) (lit "tRuNcAtE")
           (lit "TRUNCATE") (start 3 true)).
  - do 2 right. left. reflexivity.
  - reflexivity.
  - reflexivity.
Defined.

(** X9.  The message of a blocked envelope tells the rule: two blocked runs,
    on any queries, that come back with the same envelope were blocked by
    the same keyword. *)
Theorem X9_message_tells_the_rule (E : Env) (q1 q2 r1 r2 : str)
    (w1 w2 : world E) :
  guardrail (unicode_upper E) q1 = Some r1 ->
  guardrail (unicode_upper E) q2 = Some r2 ->
  fst (execute_sql E q1 w1) = fst (execute_sql E q2 w2) ->
  r1 = r2.
Proof.
  intros H1 H2.
  rewrite (execute_sql_blocked E q1 r1 w1 H1),
    (execute_sql_blocked E q2 r2 w2 H2).
  simpl. unfold blocked. intros H. apply blocked_message_inj.
  congruence.
Qed.

Lemma X9_witness : lit "DROP" = lit "DROP".
Proof.
  apply (X9_message_tells_the_rule (shop 3 true) (lit "drop table a")
           (lit "SELECT 1; DROP TABLE b") (lit "DROP") (lit "DROP")
           (start 3 true) (start 3 true)); reflexivity.
Defined.

(** ** The two metadata tools *)

(** X10.  [get_schema] and [list_tables] are not screened by the keyword
    list: whatever the table name, and whatever the client does, each makes
    one call to the client, which is not a query, and its envelope is never
    the blocked one. *)
Theorem X10_metadata_tools_never_query (E : Env) (table_name : str)
    (w : world E) :
  (exists env w' ev,
     get_schema E table_name w = (Returned env, w') /\
     trace w' = trace w ++ [ev] /\
     (forall q, ev <> StoreQuery q) /\
     dict_get "status" env <> Some (VStr (lit "blocked"))) /\
  (exists env w' ev,
     list_tables E w = (Returned env, w') /\
     trace w' = trace w ++ [ev] /\
     (forall q, ev <> StoreQuery q) /\
     dict_get "status" env <> Some (VStr (lit "blocked"))).
Proof.
  split.
  - unfold get_schema, try_except, bind, call, ret, error.
    destruct (bq_get_table E (table_ref_of table_name) (ext w))
      as [[table | e] s]; simpl;
      do 3 eexists; (split; [reflexivity |]); (split; [reflexivity |]);
      (split; [discriminate |]);
      intros [= H]; vm_compute in H; discriminate H.
  - unfold list_tables, try_except, bind, call, ret, error.
    destruct (bq_list_tables E dataset_ref (ext w))
      as [[tables | e] s]; simpl;
      do 3 eexists; (split; [reflexivity |]); (split; [reflexivity |]);
      (split; [discriminate |]);
      intros [= H]; vm_compute in H; discriminate H.
Qed.

(** A table name that [execute_sql] would refuse as a query goes to the
    client all the same. *)
Example get_schema_with_keyword :
  guardrail no_upper (lit "x; DROP TABLE y") = Some (lit "DROP") /\
  snd (get_schema (flaky 3) (lit "x; DROP TABLE y") (flaky_start 3))
  = Build_world (flaky 3) 1
      [StoreGetTable
         (lit "playground-s-11-6d7b503d.ecom_analytics.x; DROP TABLE y")].
Proof. split; vm_compute; reflexivity. Qed.
